(** * The Move component of the slider (src/js/components/Move/Move.ts)

    A shallow embedding of the positioning and motion component: the
    conversion between slide indices and track offsets, the limits, the loop
    wrapper and the small state machine that admits and completes moves.

    Numbers.  The component computes with JavaScript numbers.  They are
    modelled as exact rationals ([Q]); results are compared with [==].
    [Infinity] occurs once, as the initial [minDistance] of [toIndex], and is
    modelled by [None].  The only division is the one by [sliderSize()] in
    [loop]; statements that depend on it assume that size is not zero.

    Collaborators.  Layout, Direction, Controller, Slides, Style, Transition
    and the event bus are not part of this component.  What the component
    reads from them is a field of [Setup]; what it asks of them is recorded,
    in order, in the [log] of the state. *)

From Stdlib Require Import ZArith QArith Qabs Qround Qminmax Lqa Lia List Bool.
Import ListNotations.

Local Open Scope Q_scope.

(** ** The numeric helpers imported from utils *)

Module Num.

(** [a < b] on numbers. *)
Definition ltb (a b : Q) : bool := negb (Qle_bool b a).

(** [a > b] on numbers. *)
Definition gtb (a b : Q) : bool := ltb b a.

(** [Math.sign]. *)
Definition sign (x : Q) : Q := inject_Z (Z.sgn (Qnum x)).

(** [Math.ceil]. *)
Definition ceil (x : Q) : Q := inject_Z (Qceiling x).

(** [Math.abs]. *)
Definition abs (x : Q) : Q := Qabs x.

(** Modelled from the spec: [clamp] of utils is not among the sources.  The
    trimmed offset is clamped "into the interval from 0 to the extent,
    respecting orientation sign", so the two bounds come in either order and
    are sorted first. *)
Definition clamp (number x y : Q) : Q :=
  let minimum := Qmin x y in
  let maximum := Qmax x y in
  Qmin (Qmax minimum number) maximum.

(** [distance < minDistance], where [None] stands for [Infinity]. *)
Definition lt_min (distance : Q) (minDistance : option Q) : bool :=
  match minDistance with
  | None => true
  | Some m => ltb distance m
  end.

End Num.

(** ** Options and collaborators *)

(** [options.type]: the constants SLIDE, LOOP and FADE. *)
Inductive SliderType : Type := SLIDE | LOOP | FADE.

(** [options.trimSpace]: [false], [true] or ['move']. *)
Inductive TrimSpace : Type := TrimFalse | TrimTrue | TrimMove.

(** [options.focus]: absent, ['center'] or a number. *)
Inductive Focus : Type :=
  | FocusUndefined
  | FocusCenter
  | FocusNumber (n : Q).

(** [options.direction]. *)
Inductive Direction : Type := LTR | RTL | TTB.

Record Options : Type := mkOptions {
  type : SliderType;
  direction : Direction;
  waitForTransition : bool;
  trimSpace : TrimSpace;
  focus : Focus
}.

(** What the component reads from [Components.Layout]. *)
Record Layout : Type := mkLayout {
  slideSize : Z -> bool -> Q;   (* slideSize( index, withoutGap ) *)
  totalSize : Z -> Q;           (* totalSize( index ) *)
  listSize : Q;                 (* listSize() *)
  sliderSize : Q;               (* sliderSize() *)
  getPadding : bool -> Q        (* getPadding( right ) *)
}.

(** The measured rectangles [getPosition] reads: [rect( list )[ left ]] and
    [rect( track )[ left ]], with [left] already resolved for the direction. *)
Record Dom : Type := mkDom {
  rectList : Q;
  rectTrack : Q
}.

(** The two values of [Splide.state] this component writes. *)
Inductive MotionState : Type := IDLE | MOVING.

(** A completion callback, known by its identity only. *)
Definition Callback : Type := nat.

(** The control strings handed to [Controller.go]: ['>'] and ['<']. *)
Inductive Control : Type := Next | Prev.

(** The closure handed to [Transition.start] by [move]: the arguments of the
    call and the offset read before the move. *)
Record Handler : Type := mkHandler {
  h_dest : Z;
  h_index : Z;
  h_prev : Z;
  h_callback : option Callback;
  h_position : Q
}.

(** The calls the component makes to its collaborators. *)
Inductive Effect : Type :=
  | Emit_MOVE (index prev dest : Z)
  | Emit_MOVED (index prev dest : Z)
  | Emit_REPOSITIONED
  | Transition_start (dest : Z) (done : Handler)
  | Transition_cancel
  | Scroll_cancel
  | Controller_go (control : Control) (allowSameIndex : bool)
                  (callback : option Callback)
  | Invoke (callback : Callback)
  | Style_ruleBy (px : Q).

(** Everything the component is constructed with.  [reaction] is what a
    collaborator's call does to the measured rectangles; it is not this
    component's code, so every statement below holds for any reaction. *)
Record Setup : Type := mkSetup {
  options : Options;
  layout : Layout;
  getEnd : Z;                       (* Components.Controller.getEnd() *)
  slides : list Z;                  (* the indices of Components.Slides.get() *)
  reaction : Effect -> Dom -> Dom
}.

(** The state: the [waiting] variable of the closure ([None] until it is
    first assigned), [Splide.state], the page, and the calls made so far,
    oldest first. *)
Record State : Type := mkState {
  waiting : option bool;
  state : MotionState;
  dom : Dom;
  log : list Effect
}.

Definition initial : State :=
  {| waiting := None; state := IDLE;
     dom := {| rectList := 0; rectTrack := 0 |}; log := [] |}.

Definition SliderType_eqb (a b : SliderType) : bool :=
  match a, b with
  | SLIDE, SLIDE | LOOP, LOOP | FADE, FADE => true
  | _, _ => false
  end.

(** Truthiness of [options.trimSpace]. *)
Definition truthy (t : TrimSpace) : bool :=
  match t with
  | TrimFalse => false
  | _ => true
  end.

(** ** The component *)

Section Move.

Variable E : Setup.

(** [Splide.is( type )]. *)
Definition Splide_is (t : SliderType) : bool :=
  SliderType_eqb (type (options E)) t.

(** Modelled from the spec: the sign of the Direction collaborator, which is
    not among the sources.  A value keeps its sign when the direction is
    right-to-left and is negated otherwise (index 1 of 200px slides lies at
    offset -200 left-to-right). *)
Definition sigma : Q :=
  match direction (options E) with RTL => 1 | _ => -1 end.

(** Modelled from the spec: [orient( value )] of the Direction collaborator
    applies the orientation sign to the value. *)
Definition orient (value : Q) : Q := value * sigma.

(** [offset( index )]: the alignment offset; [NaN || 0] and [0 || 0] are 0. *)
Definition offset (index : Z) : Q :=
  match focus (options E) with
  | FocusCenter =>
      (listSize (layout E) - slideSize (layout E) index true) / 2
  | FocusNumber n => n * slideSize (layout E) index false
  | FocusUndefined => 0
  end.

(** [trim( position )]. *)
Definition trim (position : Q) : Q :=
  if truthy (trimSpace (options E)) && Splide_is SLIDE
  then Num.clamp position 0
         (orient (sliderSize (layout E) - listSize (layout E)))
  else position.

(** [toPosition( index, trimming )]. *)
Definition toPosition (index : Z) (trimming : bool) : Q :=
  let position := orient (totalSize (layout E) (index - 1) - offset index) in
  if trimming then trim position else position.

(** [getPosition()]. *)
Definition getPosition (d : Dom) : Q :=
  rectList d - rectTrack d + orient (getPadding (layout E) false).

(** [getLimit( max )]. *)
Definition getLimit (max : bool) : Q :=
  toPosition (if max then getEnd E else 0%Z) (truthy (trimSpace (options E))).

(** [isBusy()]: [!! waiting]. *)
Definition isBusy (s : State) : bool :=
  match waiting s with
  | Some true => true
  | _ => false
  end.

(** [exceededLimit( max, position )]; [None] is an omitted argument. *)
Definition exceededLimit (max : option bool) (position : option Q)
    (d : Dom) : bool :=
  let position :=
    match position with None => getPosition d | Some p => p end in
  let exceededMin :=
    negb (match max with Some true => true | _ => false end)
    && Num.ltb (orient position) (orient (getLimit false)) in
  let exceededMax :=
    negb (match max with Some false => true | _ => false end)
    && Num.gtb (orient position) (orient (getLimit true)) in
  exceededMin || exceededMax.

(** [loop( position )]. *)
Definition loop (position : Q) (s : State) : Q :=
  if negb (isBusy s) && Splide_is LOOP then
    let diff := orient (position - getPosition (dom s)) in
    let exceededMin :=
      exceededLimit (Some false) (Some position) (dom s) && Num.ltb diff 0 in
    let exceededMax :=
      exceededLimit (Some true) (Some position) (dom s) && Num.gtb diff 0 in
    if exceededMin || exceededMax then
      let excess := position - getLimit exceededMax in
      let size := sliderSize (layout E) in
      position - Num.sign excess * size * Num.ceil (Num.abs excess / size)
    else position
  else position.

(** The loop of [toIndex], from slide [i] on, with the running [index] and
    [minDistance]. *)
Fixpoint scan (Slides : list Z) (position : Q) (index : Z)
    (minDistance : option Q) : Z :=
  match Slides with
  | [] => index
  | slideIndex :: rest =>
      let distance := Num.abs (toPosition slideIndex true - position) in
      if Num.lt_min distance minDistance
      then scan rest position slideIndex (Some distance)
      else index
  end.

(** [toIndex( position )]. *)
Definition toIndex (position : Q) : Z := scan (slides E) position 0%Z None.

(** A call to a collaborator: recorded, and the page reacts. *)
Definition call (e : Effect) (s : State) : State :=
  {| waiting := waiting s; state := state s;
     dom := reaction E e (dom s); log := log s ++ [e] |}.

Definition set_waiting (b : bool) (s : State) : State :=
  {| waiting := Some b; state := state s; dom := dom s; log := log s |}.

(** [Splide.state.set( st )]. *)
Definition set_state (st : MotionState) (s : State) : State :=
  {| waiting := waiting s; state := st; dom := dom s; log := log s |}.

(** [translate( position, preventLoop )]: the value handed to
    [Style.ruleBy] as the translate rule of the list, in px. *)
Definition translate (position : Q) (preventLoop : bool) (s : State) : State :=
  call (Style_ruleBy (if preventLoop then position else loop position s)) s.

(** [jump( index )]. *)
Definition jump (index : Z) (s : State) : State :=
  translate (toPosition index true) false s.

(** [cancel()]. *)
Definition cancel (s : State) : State :=
  let s1 := set_waiting false s in
  let s2 := call Transition_cancel s1 in
  translate (getPosition (dom s2)) false s2.

(** [reposition()], with [Splide.index] as argument. *)
Definition reposition (splideIndex : Z) (s : State) : State :=
  let s1 := call Scroll_cancel s in
  let s2 := jump splideIndex s1 in
  call Emit_REPOSITIONED s2.

(** [mount()]: outside fade mode it only registers [reposition] as a
    listener; the bus then runs [reposition] on its own. *)
Definition mount (s : State) : State :=
  if negb (Splide_is FADE) then s else call Emit_REPOSITIONED s.

(** [move( dest, index, prev, callback )]. *)
Definition move (dest index prev : Z) (callback : option Callback)
    (s : State) : State :=
  if negb (isBusy s) then
    let position := getPosition (dom s) in
    let looping := negb (dest =? index)%Z in
    let s1 := set_waiting (looping || waitForTransition (options E)) s in
    let s2 := set_state MOVING s1 in
    let s3 := call (Emit_MOVE index prev dest) s2 in
    call (Transition_start dest
            {| h_dest := dest; h_index := index; h_prev := prev;
               h_callback := callback; h_position := position |}) s3
  else s.

(** The completion handler up to and including the MOVED notification. *)
Definition settle (h : Handler) (s : State) : State :=
  let looping := negb (h_dest h =? h_index h)%Z in
  let s1 := if looping then jump (h_index h) s else s in
  let s2 := set_waiting false s1 in
  let s3 := set_state IDLE s2 in
  call (Emit_MOVED (h_index h) (h_prev h) (h_dest h)) s3.

(** The condition of the edge-trim compensation, read in state [s]. *)
Definition compensates (h : Handler) (s : State) : bool :=
  match trimSpace (options E) with TrimMove => true | _ => false end
  && negb (h_dest h =? h_prev h)%Z
  && Qeq_bool (h_position h) (getPosition (dom s)).

(** The completion handler [move] hands to [Transition.start]. *)
Definition transitionDone (h : Handler) (s : State) : State :=
  let s4 := settle h s in
  if compensates h s4 then
    call (Controller_go (if (h_dest h >? h_prev h)%Z then Next else Prev)
            false (h_callback h)) s4
  else
    match h_callback h with
    | Some c => call (Invoke c) s4
    | None => s4
    end.

(** The operations of the component as steps of one machine; [OpDone] is the
    transition executor signalling completion. *)
Inductive Op : Type :=
  | OpMove (dest index prev : Z) (callback : option Callback)
  | OpJump (index : Z)
  | OpTranslate (position : Q) (preventLoop : bool)
  | OpCancel
  | OpReposition (splideIndex : Z)
  | OpMount
  | OpDone (h : Handler).

Definition step (op : Op) (s : State) : State :=
  match op with
  | OpMove dest index prev callback => move dest index prev callback s
  | OpJump index => jump index s
  | OpTranslate position preventLoop => translate position preventLoop s
  | OpCancel => cancel s
  | OpReposition splideIndex => reposition splideIndex s
  | OpMount => mount s
  | OpDone h => transitionDone h s
  end.

(** The slides' trimmed offsets advance strictly, in the direction of travel,
    from each slide of the list to the next. *)
Fixpoint advancing (l : list Z) : bool :=
  match l with
  | a :: (b :: _) as rest =>
      Num.ltb (orient (toPosition a true)) (orient (toPosition b true))
      && advancing rest
  | _ => true
  end.

End Move.

(** ** Concrete geometries

    The page of the component's tests: [count] slides, each [width] wide and
    without gap or padding; an index that belongs to no slide, or to a clone
    (clones have no dimensions there), measures 0. *)

Definition uniformLayout (count : Z) (width viewport : Q) : Layout :=
  {| slideSize := fun index _ =>
       if (0 <=? index)%Z && (index <? count)%Z then width else 0;
     totalSize := fun index =>
       if (0 <=? index)%Z && (index <? count)%Z
       then width * inject_Z (index + 1) else 0;
     listSize := viewport;
     sliderSize := width * inject_Z count;
     getPadding := fun _ => 0 |}.

(** A page whose rectangles do not answer to the calls. *)
Definition inert (e : Effect) (d : Dom) : Dom := d.

(** The indices [0 .. count - 1]. *)
Definition realSlides (count : Z) : list Z :=
  map Z.of_nat (seq 0 (Z.to_nat count)).

Definition scenario (t : SliderType) (f : Focus) (wait : bool)
    (trimming : TrimSpace) (count : Z) (viewport : Q) : Setup :=
  {| options := {| type := t; direction := LTR; waitForTransition := wait;
                   trimSpace := trimming; focus := f |};
     layout := uniformLayout count 200 viewport;
     getEnd := (count - 1)%Z;
     slides := realSlides count;
     reaction := inert |}.

(** Viewport 200px, 5 slides of 200px, leading alignment, no loop. *)
Definition slideScenario : Setup :=
  scenario SLIDE FocusUndefined true TrimTrue 5 200.

(** The same slides, not waiting for the transition. *)
Definition eagerScenario : Setup :=
  scenario SLIDE FocusUndefined false TrimTrue 5 200.

(** Three slides per page (viewport 600px), the active one centred. *)
Definition centeredScenario : Setup :=
  scenario SLIDE FocusCenter true TrimTrue 5 600.

(** Loop mode, viewport 200px, [count] slides. *)
Definition loopScenario (count : Z) : Setup :=
  scenario LOOP FocusUndefined true TrimTrue count 200.

(** The state an accepted move leaves behind in [eagerScenario]: MOVING,
    with [waiting] false. *)
Definition movingNotWaiting : State := move eagerScenario 1 1 0 None initial.

(** The state an accepted move leaves behind in [slideScenario]: MOVING,
    with [waiting] true. *)
Definition movingWaiting : State := move slideScenario 1 1 0 None initial.

(** Three slides per page, centred, with [trimSpace: 'move']: the slides 0
    and 1 share the trimmed offset 0. *)
Definition centeredMoveScenario : Setup :=
  scenario SLIDE FocusCenter true TrimMove 5 600.

(** The closure of [move( 1, 1, 0, callback 7 )] on that page, started at
    offset 0. *)
Definition absorbed : Handler :=
  {| h_dest := 1; h_index := 1; h_prev := 0; h_callback := Some 7%nat;
     h_position := 0 |}.

(** The state that move leaves behind. *)
Definition movingAbsorbed : State :=
  move centeredMoveScenario 1 1 0 (Some 7%nat) initial.

(** ** Runs

    A run of the machine: the operations applied in order. *)
Definition run (E : Setup) (ops : list Op) (s : State) : State :=
  fold_left (fun s' op => step E op s') ops s.

(** The closure [move( dest, index, prev, callback )] hands to
    [Transition.start] when it is called in state [s]. *)
Definition handlerOf (E : Setup) (dest index prev : Z)
    (callback : option Callback) (s : State) : Handler :=
  {| h_dest := dest; h_index := index; h_prev := prev;
     h_callback := callback; h_position := getPosition E (dom s) |}.


(** The operations that only position the track. *)
Definition positioning (op : Op) : bool :=
  match op with
  | OpJump _ | OpTranslate _ _ | OpReposition _ | OpMount => true
  | _ => false
  end.

(** The calls that neither start, cancel nor complete a move. *)
Definition positional (e : Effect) : bool :=
  match e with
  | Style_ruleBy _ | Scroll_cancel | Emit_REPOSITIONED => true
  | _ => false
  end.

(** ** Facts about the numeric helpers *)

Module NumFacts.

Lemma ltb_lt (a b : Q) : Num.ltb a b = true <-> a < b.
Proof.
  unfold Num.ltb. rewrite negb_true_iff.
  split; intro H.
  - apply Qnot_le_lt. intro Hle. apply Qle_bool_iff in Hle. congruence.
  - destruct (Qle_bool b a) eqn:Hb; [|reflexivity].
    apply Qle_bool_iff in Hb. exfalso. exact (Qlt_not_le _ _ H Hb).
Qed.

Lemma ltb_ge (a b : Q) : Num.ltb a b = false <-> b <= a.
Proof.
  unfold Num.ltb. rewrite negb_false_iff. apply Qle_bool_iff.
Qed.

Lemma gtb_gt (a b : Q) : Num.gtb a b = true <-> b < a.
Proof. unfold Num.gtb. apply ltb_lt. Qed.

Lemma gtb_le (a b : Q) : Num.gtb a b = false <-> a <= b.
Proof. unfold Num.gtb. apply ltb_ge. Qed.

#[global] Instance ltb_comp : Proper (Qeq ==> Qeq ==> eq) Num.ltb.
Proof.
  intros a a' Ha b b' Hb. unfold Num.ltb. now rewrite Ha, Hb.
Qed.

Lemma clamp_lower (number x y : Q) : Qmin x y <= Num.clamp number x y.
Proof.
  unfold Num.clamp. apply Q.min_glb.
  - apply Q.le_max_l.
  - apply Q.min_le_iff. destruct (Qlt_le_dec x y) as [H|H].
    + left. apply Q.max_le_iff. now right; apply Qlt_le_weak.
    + right. apply Q.max_le_iff. now right; apply Qle_refl.
Qed.

Lemma clamp_upper (number x y : Q) : Num.clamp number x y <= Qmax x y.
Proof. unfold Num.clamp. apply Q.le_min_r. Qed.

Lemma clamp_inside (number x y : Q) :
  Qmin x y <= number -> number <= Qmax x y -> Num.clamp number x y == number.
Proof.
  intros Hlo Hhi. unfold Num.clamp.
  rewrite (Q.max_r _ _ Hlo). now apply Q.min_l.
Qed.

(** [Math.ceil] of a number in (0, 1] is 1. *)
Lemma ceil_unit (x : Q) : 0 < x -> x <= 1 -> Num.ceil x == 1.
Proof.
  intros Hpos Hle. unfold Num.ceil.
  assert (Hup : (Qceiling x <= 1)%Z).
  { change 1%Z with (Qceiling (inject_Z 1)) at 1.
    - apply Qceiling_resp_le. exact Hle. }
  assert (Hlo : (0 < Qceiling x)%Z).
  { rewrite Zlt_Qlt. eapply Qlt_le_trans; [exact Hpos|apply Qle_ceiling]. }
  assert (Heq : Qceiling x = 1%Z) by lia.
  rewrite Heq. reflexivity.
Qed.

End NumFacts.

(** ** Orientation and limits *)

Section Orientation.

Variable E : Setup.

Lemma sigma_square : sigma E * sigma E == 1.
Proof. unfold sigma. destruct (direction (options E)); reflexivity. Qed.

Lemma orient_sigma (v : Q) : orient E v = v * sigma E.
Proof. reflexivity. Qed.

#[global] Instance orient_comp : Proper (Qeq ==> Qeq) (orient E).
Proof. intros a b H. rewrite !orient_sigma. now rewrite H. Qed.

Lemma orient_sub (a b : Q) : orient E (a - b) == orient E a - orient E b.
Proof. rewrite !orient_sigma. ring. Qed.

Lemma orient_involutive (v : Q) : orient E (orient E v) == v.
Proof.
  rewrite !orient_sigma.
  rewrite <- Qmult_assoc, sigma_square. ring.
Qed.

Lemma abs_orient (v : Q) : Qabs (orient E v) == Qabs v.
Proof.
  rewrite orient_sigma, Qabs_Qmult.
  unfold sigma. destruct (direction (options E)); simpl Qabs at 2;
    change (Qabs 1) with 1; change (Qabs (-1)) with 1; ring.
Qed.

(** Distances between offsets are distances between oriented offsets. *)
Lemma abs_sub_orient (a b : Q) :
  Num.abs (a - b) == Qabs (orient E a - orient E b).
Proof.
  unfold Num.abs. now rewrite <- orient_sub, abs_orient.
Qed.

(** The test against the minimum alone. *)
Lemma exceededLimit_min (p : Q) (d : Dom) :
  exceededLimit E (Some false) (Some p) d
  = Num.ltb (orient E p) (orient E (getLimit E false)).
Proof. unfold exceededLimit. simpl. now rewrite orb_false_r. Qed.

(** The test against the maximum alone. *)
Lemma exceededLimit_max (p : Q) (d : Dom) :
  exceededLimit E (Some true) (Some p) d
  = Num.gtb (orient E p) (orient E (getLimit E true)).
Proof. reflexivity. Qed.

(** With [max] omitted both bounds are tested. *)
Lemma exceededLimit_both (p : option Q) (d : Dom) :
  exceededLimit E None p d
  = exceededLimit E (Some false) p d || exceededLimit E (Some true) p d.
Proof. unfold exceededLimit. simpl. now rewrite orb_false_r. Qed.

End Orientation.

(** ** The limit tests *)

(** C8.  The minimum limit is inclusive: tested against the minimum, the
    limit itself does not exceed it, while the offset displaced by any
    [eps > 0] past the limit in the direction of travel does (that offset is
    [getLimit( false ) - orient( eps )]: the one whose oriented value is
    [eps] below the oriented limit); in general an offset exceeds the
    minimum exactly when it is strictly below it in the oriented order.
    With [max] omitted, the result is true if either bound is exceeded. *)
Theorem exceededLimit_boundary (E : Setup) (d : Dom) :
  exceededLimit E (Some false) (Some (getLimit E false)) d = false
  /\ (forall eps : Q, 0 < eps ->
        exceededLimit E (Some false)
          (Some (getLimit E false - orient E eps)) d = true)
  /\ (forall p : Q,
        exceededLimit E (Some false) (Some p) d = true
        <-> orient E p < orient E (getLimit E false))
  /\ (forall p : option Q,
        exceededLimit E None p d
        = exceededLimit E (Some false) p d
          || exceededLimit E (Some true) p d).
Proof.
  repeat split.
  - rewrite exceededLimit_min. apply NumFacts.ltb_ge. apply Qle_refl.
  - intros eps Heps. rewrite exceededLimit_min. apply NumFacts.ltb_lt.
    rewrite orient_sub, orient_involutive.
    rewrite <- (Qplus_0_r (orient E (getLimit E false))) at 2.
    unfold Qminus. apply Qplus_lt_r.
    apply Qopp_lt_compat in Heps. exact Heps.
  - rewrite exceededLimit_min. apply NumFacts.ltb_lt.
  - rewrite exceededLimit_min. apply NumFacts.ltb_lt.
  - intro p. apply exceededLimit_both.
Qed.

(** C8 at the test page: the minimum limit is 0 and, left to right, the
    offset 10 lies past it. *)
Lemma exceededLimit_boundary_witness :
  0 < 10
  /\ exceededLimit slideScenario (Some false)
       (Some (getLimit slideScenario false - orient slideScenario 10))
       (dom initial) = true.
Proof.
  split; [reflexivity|].
  apply (proj1 (proj2 (exceededLimit_boundary slideScenario (dom initial)))).
  reflexivity.
Defined.

(** ** Trimming *)

(** C9.  [toPosition( index, true )] is the untrimmed offset clamped between
    0 and the oriented extent of (slider size - list size) when trimming is
    enabled and the type is 'slide': the result then lies between the two
    bounds and is the untrimmed offset itself when that already does.  When
    trimming is disabled or the type is not 'slide', the trimmed result is
    the untrimmed one. *)
Theorem toPosition_trim (E : Setup) (index : Z) :
  let extent := orient E (sliderSize (layout E) - listSize (layout E)) in
  (trimSpace (options E) <> TrimFalse -> type (options E) = SLIDE ->
     toPosition E index true = Num.clamp (toPosition E index false) 0 extent
     /\ Qmin 0 extent <= toPosition E index true <= Qmax 0 extent
     /\ (Qmin 0 extent <= toPosition E index false <= Qmax 0 extent ->
         toPosition E index true == toPosition E index false))
  /\ (trimSpace (options E) = TrimFalse \/ type (options E) <> SLIDE ->
      toPosition E index true = toPosition E index false).
Proof.
  intro extent. split.
  - intros Htrim Htype.
    assert (Hon : truthy (trimSpace (options E)) && Splide_is E SLIDE = true).
    { unfold Splide_is. rewrite Htype.
      destruct (trimSpace (options E)); [congruence|reflexivity|reflexivity]. }
    assert (Heq : toPosition E index true
                  = Num.clamp (toPosition E index false) 0 extent).
    { unfold toPosition, trim. now rewrite Hon. }
    rewrite Heq. repeat split.
    + apply NumFacts.clamp_lower.
    + apply NumFacts.clamp_upper.
    + intros [Hlo Hhi]. now apply NumFacts.clamp_inside.
  - intros Hoff.
    assert (Hno : truthy (trimSpace (options E)) && Splide_is E SLIDE = false).
    { unfold Splide_is. destruct Hoff as [H|H].
      - now rewrite H.
      - destruct (type (options E)); try congruence;
          now rewrite andb_false_r. }
    unfold toPosition, trim. now rewrite Hno.
Qed.

(** C9 at the test page, where index 4 of 5 lies on the far bound, and in
    loop mode, where nothing is trimmed. *)
Lemma toPosition_trim_witness :
  toPosition slideScenario 4 true
    = Num.clamp (toPosition slideScenario 4 false) 0
        (orient slideScenario
           (sliderSize (layout slideScenario)
            - listSize (layout slideScenario)))
  /\ toPosition (loopScenario 5) 7 true = toPosition (loopScenario 5) 7 false.
Proof.
  split.
  - apply (proj1 (toPosition_trim slideScenario 4));
      [discriminate|reflexivity].
  - apply (proj2 (toPosition_trim (loopScenario 5) 7)).
    right. discriminate.
Defined.

(** ** The loop wrapper at the current offset *)

(** Wrapping the current offset changes nothing: the delta is zero. *)
Lemma loop_current (E : Setup) (s : State) :
  loop E (getPosition E (dom s)) s = getPosition E (dom s).
Proof.
  unfold loop.
  destruct (negb (isBusy s) && Splide_is E LOOP); [|reflexivity].
  assert (Hd : orient E (getPosition E (dom s) - getPosition E (dom s)) == 0).
  { rewrite orient_sub. ring. }
  unfold Num.gtb. rewrite Hd.
  change (Num.ltb 0 0) with false.
  now rewrite !andb_false_r.
Qed.

(** C10.  The wrap of the current offset is the current offset, whatever the
    limits are; and [cancel()] clears [waiting], asks the transition to
    cancel, and then hands to the style exactly the offset it reads from the
    page at that point. *)
Theorem cancel_renders_current_offset (E : Setup) (s : State) :
  loop E (getPosition E (dom s)) s = getPosition E (dom s)
  /\ waiting (cancel E s) = Some false
  /\ state (cancel E s) = state s
  /\ log (cancel E s)
     = log s ++ [Transition_cancel;
                 Style_ruleBy
                   (getPosition E (reaction E Transition_cancel (dom s)))].
Proof.
  split; [apply loop_current|].
  unfold cancel, translate. rewrite loop_current.
  repeat split. simpl. now rewrite <- app_assoc.
Qed.

(** ** The loop wrapper past a limit *)

Section Wrap.

Variable E : Setup.
Variable s : State.
Hypothesis Hloop : type (options E) = LOOP.
Hypothesis Hfree : isBusy s = false.

Lemma loop_active : negb (isBusy s) && Splide_is E LOOP = true.
Proof. unfold Splide_is. now rewrite Hfree, Hloop. Qed.

(** Past the minimum while moving toward it: the excess is measured from
    the minimum limit. *)
Lemma loop_past_min (position : Q) :
  orient E position < orient E (getLimit E false) ->
  orient E (position - getPosition E (dom s)) < 0 ->
  loop E position s
  = position
    - Num.sign (position - getLimit E false) * sliderSize (layout E)
      * Num.ceil (Num.abs (position - getLimit E false)
                  / sliderSize (layout E)).
Proof.
  intros Hpast Hdiff. unfold loop. rewrite loop_active.
  rewrite exceededLimit_min.
  apply NumFacts.ltb_lt in Hpast. rewrite Hpast.
  assert (Hgt : Num.gtb (orient E (position - getPosition E (dom s))) 0
                = false).
  { apply NumFacts.gtb_le. now apply Qlt_le_weak. }
  apply NumFacts.ltb_lt in Hdiff. rewrite Hdiff, Hgt.
  rewrite andb_false_r. reflexivity.
Qed.

(** Past the maximum while moving toward it: the excess is measured from
    the maximum limit. *)
Lemma loop_past_max (position : Q) :
  orient E (getLimit E true) < orient E position ->
  0 < orient E (position - getPosition E (dom s)) ->
  loop E position s
  = position
    - Num.sign (position - getLimit E true) * sliderSize (layout E)
      * Num.ceil (Num.abs (position - getLimit E true)
                  / sliderSize (layout E)).
Proof.
  intros Hpast Hdiff. unfold loop. rewrite loop_active.
  rewrite exceededLimit_max.
  assert (Hlt : Num.ltb (orient E (position - getPosition E (dom s))) 0
                = false).
  { apply NumFacts.ltb_ge. now apply Qlt_le_weak. }
  apply NumFacts.gtb_gt in Hpast. apply NumFacts.gtb_gt in Hdiff.
  rewrite Hpast, Hdiff, Hlt.
  rewrite andb_false_r. reflexivity.
Qed.

End Wrap.

(** The test page in loop mode: the minimum limit is 0. *)
Lemma loopScenario_min (count : Z) : getLimit (loopScenario count) false == 0.
Proof. reflexivity. Qed.

(** [translate( 200 )] on the loop page with [count] slides. *)
Lemma loopScenario_overshoot (count : Z) :
  (1 <= count)%Z ->
  loop (loopScenario count) 200 initial == - (200 * (inject_Z count - 1)).
Proof.
  intro Hcount.
  assert (Hc : 1 <= inject_Z count).
  { change 1 with (inject_Z 1). now rewrite <- Zle_Qle. }
  rewrite (loop_past_min (loopScenario count) initial eq_refl eq_refl);
    [|reflexivity|reflexivity].
  change (sliderSize (layout (loopScenario count)))
    with (200 * inject_Z count).
  change (200 - getLimit (loopScenario count) false) with 200.
  change (Num.sign 200) with 1. change (Num.abs 200) with 200.
  rewrite (NumFacts.ceil_unit (200 / (200 * inject_Z count))).
  - ring.
  - apply Qlt_shift_div_l; lra.
  - apply Qle_shift_div_r; lra.
Qed.

(** C4.  In loop mode with [waiting] clear: when the requested offset lies
    past the minimum limit and the delta from the current offset points
    toward it, or lies past the maximum limit with the delta pointing toward
    that one, [loop] returns the requested offset minus
    sign(excess) x ceil(|excess| / slider size) slider sizes, the excess being
    the requested offset minus the exceeded limit.  On the loop page with a
    200px viewport and [count] slides, [translate( 200 )] hands the style the
    offset -(200 x (count - 1)). *)
Theorem loop_wraps_excess :
  (forall (E : Setup) (s : State) (position : Q),
     type (options E) = LOOP -> isBusy s = false ->
     ~ sliderSize (layout E) == 0 ->
     let diff := orient E (position - getPosition E (dom s)) in
     let size := sliderSize (layout E) in
     let wrapped (limit : Q) :=
       position - Num.sign (position - limit)
                  * Num.ceil (Num.abs (position - limit) / size) * size in
     (orient E position < orient E (getLimit E false) -> diff < 0 ->
      loop E position s == wrapped (getLimit E false))
     /\ (orient E (getLimit E true) < orient E position -> 0 < diff ->
         loop E position s == wrapped (getLimit E true)))
  /\ (forall count : Z, (1 <= count)%Z ->
      exists px : Q,
        log (translate (loopScenario count) 200 false initial)
        = [Style_ruleBy px]
        /\ px == - (200 * (inject_Z count - 1))).
Proof.
  split.
  - intros E s position Hloop Hfree _ diff size wrapped. split.
    + intros Hpast Hdiff. unfold wrapped, size.
      rewrite (loop_past_min E s Hloop Hfree position Hpast Hdiff). ring.
    + intros Hpast Hdiff. unfold wrapped, size.
      rewrite (loop_past_max E s Hloop Hfree position Hpast Hdiff). ring.
  - intros count Hcount.
    exists (loop (loopScenario count) 200 initial). split.
    + reflexivity.
    + now apply loopScenario_overshoot.
Qed.

(** C4 on the loop page with five slides: 200 lies past the minimum limit 0,
    and it is rendered as -800. *)
Lemma loop_wraps_excess_witness :
  loop (loopScenario 5) 200 initial
  == 200 - Num.sign (200 - getLimit (loopScenario 5) false)
           * Num.ceil (Num.abs (200 - getLimit (loopScenario 5) false)
                       / sliderSize (layout (loopScenario 5)))
           * sliderSize (layout (loopScenario 5))
  /\ exists px : Q,
       log (translate (loopScenario 5) 200 false initial) = [Style_ruleBy px]
       /\ px == - (200 * (inject_Z 5 - 1)).
Proof.
  split.
  - apply (proj1 (proj1 loop_wraps_excess (loopScenario 5) initial 200
                    eq_refl eq_refl ltac:(discriminate))).
    + reflexivity.
    + reflexivity.
  - apply (proj2 loop_wraps_excess 5%Z). discriminate.
Defined.

(** ** Wrapping twice *)

(** An offset within both limits is left alone. *)
Lemma loop_within_limits (E : Setup) (s : State) (p : Q) :
  exceededLimit E None (Some p) (dom s) = false -> loop E p s = p.
Proof.
  intro H. rewrite exceededLimit_both in H.
  apply orb_false_elim in H. destruct H as [Hmin Hmax].
  unfold loop. rewrite Hmin, Hmax.
  destruct (negb (isBusy s) && Splide_is E LOOP); reflexivity.
Qed.

(** C5, as the code has it: on the loop page with five slides and the
    current offset 0, the offset 100 wraps to -900, which lies past the
    maximum limit -800 and wraps back to 100. *)
Lemma loop_not_idempotent :
  loop (loopScenario 5) 100 initial == -900
  /\ loop (loopScenario 5) (loop (loopScenario 5) 100 initial) initial == 100
  /\ ~ loop (loopScenario 5) (loop (loopScenario 5) 100 initial) initial
       == loop (loopScenario 5) 100 initial.
Proof.
  repeat split. intro H. vm_compute in H. discriminate H.
Qed.

(** C5, amended.  Wrapping a second time, with the current offset and the
    geometry unchanged, gives the result of the first wrap whenever that
    result exceeds neither limit. *)
Theorem loop_twice_within_limits (E : Setup) (s : State) (x : Q) :
  exceededLimit E None (Some (loop E x s)) (dom s) = false ->
  loop E (loop E x s) s = loop E x s.
Proof. apply loop_within_limits. Qed.

(** On the loop page 200 wraps to -800, the maximum limit itself. *)
Lemma loop_twice_within_limits_witness :
  exceededLimit (loopScenario 5) None
    (Some (loop (loopScenario 5) 200 initial)) (dom initial) = false
  /\ loop (loopScenario 5) (loop (loopScenario 5) 200 initial) initial
     = loop (loopScenario 5) 200 initial.
Proof.
  split; [reflexivity|].
  apply (loop_twice_within_limits (loopScenario 5) initial 200).
  reflexivity.
Defined.

(** ** Admission of moves *)

(** C1, as the code has it: after an accepted move that neither loops nor
    waits for the transition, the state is MOVING and [waiting] is false; a
    second [move] is then accepted: it notifies and starts a transition. *)
Lemma move_while_moving_accepted :
  state movingNotWaiting = MOVING
  /\ isBusy movingNotWaiting = false
  /\ move eagerScenario 2 2 1 None movingNotWaiting <> movingNotWaiting
  /\ log (move eagerScenario 2 2 1 None movingNotWaiting)
     = log movingNotWaiting
       ++ [Emit_MOVE 2 1 2;
           Transition_start 2
             {| h_dest := 2; h_index := 2; h_prev := 1; h_callback := None;
                h_position := 0 |}].
Proof.
  repeat split. intro H. apply (f_equal log) in H.
  apply (f_equal (@length Effect)) in H. discriminate H.
Qed.

(** C1, amended.  A [move] made while [waiting] is set is a no-op: the
    state, with its flag, its motion state and its log of notifications,
    transition requests and rendered offsets, is returned as it was.  The
    gate is [waiting] alone: with the flag clear the move is accepted
    whatever the motion state is. *)
Theorem move_gate_is_waiting (E : Setup) (dest index prev : Z)
    (callback : option Callback) (s : State) :
  (isBusy s = true -> move E dest index prev callback s = s)
  /\ (isBusy s = false ->
      waiting (move E dest index prev callback s)
      = Some (negb (dest =? index)%Z || waitForTransition (options E))
      /\ state (move E dest index prev callback s) = MOVING
      /\ log (move E dest index prev callback s)
         = log s
           ++ [Emit_MOVE index prev dest;
               Transition_start dest
                 {| h_dest := dest; h_index := index; h_prev := prev;
                    h_callback := callback;
                    h_position := getPosition E (dom s) |}]).
Proof.
  split; intro H; unfold move; rewrite H; simpl.
  - reflexivity.
  - repeat split. now rewrite <- app_assoc.
Qed.

(** While the first move waits, the second is dropped; in the MOVING state
    without the flag it is accepted. *)
Lemma move_gate_is_waiting_witness :
  move slideScenario 2 2 1 None movingWaiting = movingWaiting
  /\ state (move eagerScenario 2 2 1 None movingNotWaiting) = MOVING.
Proof.
  split.
  - apply (proj1 (move_gate_is_waiting slideScenario 2 2 1 None
                    movingWaiting)).
    reflexivity.
  - apply (proj2 (move_gate_is_waiting eagerScenario 2 2 1 None
                    movingNotWaiting)).
    reflexivity.
Defined.

(** ** Completion of a move *)

(** What the completion handler does before it decides on a follow-up. *)
Lemma settle_effects (E : Setup) (h : Handler) (s : State) :
  waiting (settle E h s) = Some false
  /\ state (settle E h s) = IDLE
  /\ log (settle E h s)
     = log s
       ++ (if negb (h_dest h =? h_index h)%Z
           then [Style_ruleBy (loop E (toPosition E (h_index h) true) s)]
           else [])
       ++ [Emit_MOVED (h_index h) (h_prev h) (h_dest h)].
Proof.
  unfold settle. repeat split.
  destruct (negb (h_dest h =? h_index h)%Z); simpl.
  - now rewrite <- app_assoc.
  - reflexivity.
Qed.

Lemma compensates_true (E : Setup) (h : Handler) (s : State) :
  compensates E h s = true
  <-> trimSpace (options E) = TrimMove
      /\ h_dest h <> h_prev h
      /\ h_position h == getPosition E (dom s).
Proof.
  unfold compensates. rewrite !andb_true_iff, negb_true_iff.
  rewrite Z.eqb_neq, Qeq_bool_iff.
  destruct (trimSpace (options E)); intuition congruence.
Qed.

(** C2, as the code has it: the move from 0 to 1 on the centred page is
    absorbed by trimming, and the follow-up request carries the callback of
    the move as its third argument; no request without it is made. *)
Lemma followup_carries_callback :
  transitionDone centeredMoveScenario absorbed movingAbsorbed
  = call centeredMoveScenario (Controller_go Next false (Some 7%nat))
      (settle centeredMoveScenario absorbed movingAbsorbed)
  /\ In (Transition_start 1 absorbed) (log movingAbsorbed)
  /\ In (Controller_go Next false (Some 7%nat))
       (log (transitionDone centeredMoveScenario absorbed movingAbsorbed))
  /\ ~ In (Controller_go Next false None)
       (log (transitionDone centeredMoveScenario absorbed movingAbsorbed)).
Proof.
  repeat split.
  - simpl. tauto.
  - simpl. tauto.
  - simpl. intros [H|[H|[H|[H|[]]]]]; discriminate H.
Qed.

(** C2, amended.  In the completion handler, when [trimSpace] is 'move',
    [dest] differs from [prev] and the offset read before the move equals
    the one read after the MOVED notification, exactly one more call is
    made: a request to the controller in the direction given by
    [dest > prev], with the callback of the move handed on as its third
    argument.  Otherwise the callback, if there is one, is invoked by the
    handler itself and the controller is not asked. *)
Theorem transitionDone_followup (E : Setup) (h : Handler) (s : State) :
  let s4 := settle E h s in
  (trimSpace (options E) = TrimMove -> h_dest h <> h_prev h ->
   h_position h == getPosition E (dom s4) ->
   log (transitionDone E h s)
   = log s4
     ++ [Controller_go (if (h_dest h >? h_prev h)%Z then Next else Prev)
           false (h_callback h)])
  /\ (trimSpace (options E) <> TrimMove \/ h_dest h = h_prev h
      \/ ~ h_position h == getPosition E (dom s4) ->
      log (transitionDone E h s)
      = log s4
        ++ match h_callback h with Some c => [Invoke c] | None => [] end).
Proof.
  intro s4. split.
  - intros Htrim Hne Hpos.
    assert (Hc : compensates E h s4 = true).
    { apply compensates_true. auto. }
    unfold transitionDone. fold s4. rewrite Hc. reflexivity.
  - intros Hno.
    assert (Hc : compensates E h s4 = false).
    { destruct (compensates E h s4) eqn:Hc; [|reflexivity].
      apply compensates_true in Hc. destruct Hc as (Ht & Hd & Hp).
      destruct Hno as [H|[H|H]]; contradiction. }
    unfold transitionDone. fold s4. rewrite Hc.
    destruct (h_callback h); simpl; [reflexivity|now rewrite app_nil_r].
Qed.

(** The absorbed move asks the controller, callback attached; the same move
    on the page without 'move' trimming invokes the callback itself. *)
Lemma transitionDone_followup_witness :
  log (transitionDone centeredMoveScenario absorbed movingAbsorbed)
  = log (settle centeredMoveScenario absorbed movingAbsorbed)
    ++ [Controller_go Next false (Some 7%nat)]
  /\ log (transitionDone centeredScenario absorbed initial)
     = log (settle centeredScenario absorbed initial) ++ [Invoke 7%nat].
Proof.
  split.
  - apply (proj1 (transitionDone_followup centeredMoveScenario absorbed
                    movingAbsorbed)).
    + reflexivity.
    + discriminate.
    + reflexivity.
  - apply (proj2 (transitionDone_followup centeredScenario absorbed initial)).
    left. discriminate.
Defined.

(** ** The waiting flag over a move cycle *)

Lemma isBusy_call (E : Setup) (e : Effect) (s : State) :
  isBusy (call E e s) = isBusy s.
Proof. reflexivity. Qed.

Lemma isBusy_translate (E : Setup) (p : Q) (b : bool) (s : State) :
  isBusy (translate E p b s) = isBusy s.
Proof. reflexivity. Qed.

Lemma isBusy_transitionDone (E : Setup) (h : Handler) (s : State) :
  isBusy (transitionDone E h s) = false.
Proof.
  unfold transitionDone.
  destruct (compensates E h (settle E h s)); [reflexivity|].
  destruct (h_callback h); reflexivity.
Qed.

(** C7, as the code has it: while a move waits, [cancel()] clears the flag;
    no completion was signalled and no MOVED notification is made. *)
Lemma cancel_clears_waiting :
  isBusy movingWaiting = true
  /\ isBusy (step slideScenario OpCancel movingWaiting) = false
  /\ (forall h : Handler, OpCancel <> OpDone h)
  /\ log (step slideScenario OpCancel movingWaiting)
     = log movingWaiting ++ [Transition_cancel; Style_ruleBy 0].
Proof.
  repeat split. intros h H. discriminate H.
Qed.

(** C7, amended.  [isBusy()] is false initially.  After an accepted [move]
    it is true exactly when the destination differs from the index or
    [waitForTransition] is set.  Once true, it becomes false by the step
    that runs the completion handler of the transition and by [cancel()],
    and by no other operation of the component. *)
Theorem isBusy_cycle :
  isBusy initial = false
  /\ (forall (E : Setup) (dest index prev : Z) (callback : option Callback)
             (s : State),
        isBusy s = false ->
        isBusy (move E dest index prev callback s)
        = negb (dest =? index)%Z || waitForTransition (options E))
  /\ (forall (E : Setup) (op : Op) (s : State),
        isBusy s = true ->
        (isBusy (step E op s) = false
         <-> op = OpCancel \/ exists h : Handler, op = OpDone h)).
Proof.
  split; [reflexivity|]. split.
  - intros E dest index prev callback s H. unfold move. rewrite H. simpl.
    unfold isBusy. simpl.
    destruct (negb (dest =? index)%Z || waitForTransition (options E));
      reflexivity.
  - intros E op s Hbusy. split.
    + intro Hclear. destruct op; simpl in Hclear.
      * unfold move in Hclear. rewrite Hbusy in Hclear. simpl in Hclear.
        congruence.
      * unfold jump in Hclear. rewrite isBusy_translate in Hclear.
        congruence.
      * rewrite isBusy_translate in Hclear. congruence.
      * now left.
      * unfold reposition, jump in Hclear.
        rewrite isBusy_call, isBusy_translate, isBusy_call in Hclear.
        congruence.
      * unfold mount in Hclear.
        destruct (negb (Splide_is E FADE));
          [|rewrite isBusy_call in Hclear]; congruence.
      * right. now exists h.
    + intros [->|[h ->]]; simpl.
      * reflexivity.
      * apply isBusy_transitionDone.
Qed.

(** On the test page the accepted move waits; the completion handler and
    [cancel()] clear the flag, a jump does not. *)
Lemma isBusy_cycle_witness :
  isBusy (move slideScenario 1 1 0 None initial) = true
  /\ isBusy (step slideScenario
               (OpDone {| h_dest := 1; h_index := 1; h_prev := 0;
                          h_callback := None; h_position := 0 |})
               movingWaiting) = false
  /\ isBusy (step slideScenario (OpJump 3) movingWaiting) <> false.
Proof.
  split; [|split].
  - apply (proj1 (proj2 isBusy_cycle) slideScenario 1%Z 1%Z 0%Z None initial).
    reflexivity.
  - apply (proj2 (proj2 isBusy_cycle) slideScenario _ movingWaiting eq_refl).
    right. eexists. reflexivity.
  - intro H.
    apply (proj2 (proj2 isBusy_cycle) slideScenario _ movingWaiting eq_refl)
      in H.
    destruct H as [H|[h H]]; discriminate H.
Defined.

(** ** From an offset back to an index *)

Section Scan.

Variable E : Setup.

(* The oriented trimmed offset of a slide, and the distance [toIndex]
   measures for it. *)
Local Abbreviation q a := (orient E (toPosition E a true)).
Local Abbreviation dist a p := (Num.abs (toPosition E a true - p)).


Lemma advancing_tail (a : Z) (l : list Z) :
  advancing E (a :: l) = true -> advancing E l = true.
Proof.
  destruct l as [|b l]; [reflexivity|].
  simpl. intro H. now apply andb_true_iff in H.
Qed.

Lemma advancing_head (l : list Z) :
  forall a b : Z, advancing E (a :: l) = true -> In b l -> q a < q b.
Proof.
  induction l as [|c l IH]; intros a b Hadv Hin; [destruct Hin|].
  simpl in Hadv. apply andb_true_iff in Hadv. destruct Hadv as [Hac Hrest].
  apply NumFacts.ltb_lt in Hac. destruct Hin as [<-|Hin].
  - exact Hac.
  - eapply Qlt_trans; [exact Hac|]. now apply IH.
Qed.




End Scan.




(** ** The closest slide *)

Section Closest.

Variable E : Setup.
Variable p : Q.

Local Abbreviation q a := (orient E (toPosition E a true)).
Local Abbreviation dist a := (Num.abs (toPosition E a true - p)).

Lemma dist_target (a : Z) : dist a == Qabs (q a - orient E p).
Proof. apply abs_sub_orient. Qed.

(** Once the distance has stopped shrinking it never shrinks again. *)
Lemma dist_unimodal (a b j : Z) :
  q a < q b -> q b <= q j -> dist a <= dist b -> dist a <= dist j.
Proof.
  rewrite !dist_target. intros Hab Hbj.
  apply (Qabs_case (q a - orient E p)); intros Ha;
    apply (Qabs_case (q b - orient E p)); intros Hb;
    apply (Qabs_case (q j - orient E p)); intros Hj; lra.
Qed.

(** Over offsets that advance strictly, the scan entered at slide [a]
    returns a slide of the list none of the others is closer than. *)
Lemma scan_closest (l : list Z) :
  forall a : Z,
    advancing E (a :: l) = true ->
    In (scan E l p a (Some (dist a))) (a :: l)
    /\ forall j : Z,
         In j (a :: l) -> dist (scan E l p a (Some (dist a))) <= dist j.
Proof.
  induction l as [|b l IH]; intros a Hadv.
  - cbn [scan]. split; [now left|].
    intros j [<-|[]]. apply Qle_refl.
  - cbn [scan Num.lt_min].
    assert (Hab : q a < q b).
    { apply (advancing_head E (b :: l)); [exact Hadv|now left]. }
    destruct (Num.ltb (dist b) (dist a)) eqn:Hcmp.
    + apply NumFacts.ltb_lt in Hcmp.
      destruct (IH b (advancing_tail E a (b :: l) Hadv)) as [Hin Hmin].
      split; [now right|].
      intros j [<-|Hj].
      * eapply Qle_trans; [apply Hmin; now left|now apply Qlt_le_weak].
      * now apply Hmin.
    + apply NumFacts.ltb_ge in Hcmp.
      split; [now left|].
      intros j [<-|[<-|Hj]].
      * apply Qle_refl.
      * exact Hcmp.
      * apply (dist_unimodal a b j); [exact Hab| |exact Hcmp].
        apply Qlt_le_weak.
        apply (advancing_head E l);
          [now apply (advancing_tail E a)|exact Hj].
Qed.

(** Where the trimmed offsets advance strictly, [toIndex] does return a
    closest slide of a non-empty registry. *)
Lemma toIndex_closest_when_advancing :
  slides E <> [] -> advancing E (slides E) = true ->
  In (toIndex E p) (slides E)
  /\ forall j : Z, In j (slides E) -> dist (toIndex E p) <= dist j.
Proof.
  unfold toIndex. destruct (slides E) as [|a l]; [congruence|].
  intros _ Hadv. cbn [scan Num.lt_min]. now apply scan_closest.
Qed.

End Closest.

(** The values of [toIndex] on the test page (200px slides, leading
    alignment): at the exact midpoint between two slides the lower index
    wins. *)
Lemma toIndex_scenario :
  toIndex slideScenario 0 = 0%Z
  /\ toIndex slideScenario (-100) = 0%Z
  /\ toIndex slideScenario (-101) = 1%Z
  /\ toIndex slideScenario (-200) = 1%Z
  /\ toIndex slideScenario (-300) = 1%Z
  /\ toIndex slideScenario (-301) = 2%Z.
Proof. repeat split. Qed.

(** C6, at the failing input.  On the centred page with three slides per
    page the trimmed offsets are 0, 0, -200, -400, -400.  For the offset
    -200 the scan measures 200 at slide 0, 200 again at slide 1, and stops:
    [toIndex] answers 0, although slide 2 lies exactly at -200. *)
Theorem toIndex_stops_before_closest :
  map (fun a => Qred (toPosition centeredScenario a true))
      (slides centeredScenario)
  = [0; 0; -200; -400; -400]
  /\ toIndex centeredScenario (-200) = 0%Z
  /\ Num.abs (toPosition centeredScenario 0 true - -200) == 200
  /\ Num.abs (toPosition centeredScenario 1 true - -200) == 200
  /\ Num.abs (toPosition centeredScenario 2 true - -200) == 0
  /\ In 2%Z (slides centeredScenario).
Proof.
  repeat split. simpl. tauto.
Qed.

(** * Further properties of the component *)

(** ** More on the numeric helpers *)

Module NumMore.




Lemma clamp_monotone (a b x y : Q) :
  a <= b -> Num.clamp a x y <= Num.clamp b x y.
Proof.
  intro H. unfold Num.clamp.
  apply Q.min_le_compat_r. now apply Q.max_le_compat_l.
Qed.

Lemma clamp_idempotent (n x y : Q) :
  Num.clamp (Num.clamp n x y) x y == Num.clamp n x y.
Proof.
  apply NumFacts.clamp_inside;
    [apply NumFacts.clamp_lower|apply NumFacts.clamp_upper].
Qed.

End NumMore.

(** ** The two orientations *)

Lemma orient_cases (E : Setup) :
  (forall v : Q, orient E v == v) \/ (forall v : Q, orient E v == - v).
Proof.
  unfold orient, sigma.
  destruct (direction (options E)); [right|left|right]; intro v; ring.
Qed.

Lemma orient_le_cases (E : Setup) (a b : Q) :
  orient E a <= orient E b -> (a <= b /\ forall v, orient E v == v)
                              \/ (b <= a /\ forall v, orient E v == - v).
Proof.
  intro H. destruct (orient_cases E) as [Hid|Hneg].
  - left. rewrite !Hid in H. auto.
  - right. rewrite !Hneg in H. split; [lra|exact Hneg].
Qed.

(** ** Where the loop wrapper lands *)

Section Landing.

Variable E : Setup.
Variable s : State.
Hypothesis Hloop : type (options E) = LOOP.
Hypothesis Hfree : isBusy s = false.
Hypothesis Hsize : 0 < sliderSize (layout E).



End Landing.






(** X4.  While [waiting] is set, or outside loop mode, [translate] hands the
    style the requested offset itself, with or without [preventLoop]. *)
Theorem translate_unwrapped (E : Setup) (s : State) (p : Q) :
  isBusy s = true \/ type (options E) <> LOOP ->
  translate E p false s = translate E p true s
  /\ log (translate E p false s) = log s ++ [Style_ruleBy p].
Proof.
  intro H.
  assert (Hoff : negb (isBusy s) && Splide_is E LOOP = false).
  { destruct H as [H|H].
    - now rewrite H.
    - unfold Splide_is. destruct (type (options E)); try congruence;
        now rewrite andb_false_r. }
  assert (Hp : loop E p s = p) by (unfold loop; now rewrite Hoff).
  unfold translate. rewrite Hp. split; reflexivity.
Qed.

(** On a slide page, and on the loop page while a move waits, 500 is
    rendered as 500. *)
Lemma translate_unwrapped_witness :
  log (translate slideScenario 500 false initial)
  = log initial ++ [Style_ruleBy 500]
  /\ translate (loopScenario 5) 500 false
       (move (loopScenario 5) 5 0 4 None initial)
     = translate (loopScenario 5) 500 true
         (move (loopScenario 5) 5 0 4 None initial).
Proof.
  split.
  - apply translate_unwrapped. right. discriminate.
  - apply translate_unwrapped. left. reflexivity.
Defined.

(** X5.  [loop] leaves an offset alone unless it lies past a limit and is
    requested in the direction of that limit: an offset that is within the
    minimum or not requested toward it, and within the maximum or not
    requested toward that, is returned unchanged. *)
Theorem loop_unchanged (E : Setup) (s : State) (p : Q) :
  let diff := orient E (p - getPosition E (dom s)) in
  orient E (getLimit E false) <= orient E p \/ 0 <= diff ->
  orient E p <= orient E (getLimit E true) \/ diff <= 0 ->
  loop E p s = p.
Proof.
  intros diff Hmin Hmax. unfold loop.
  destruct (negb (isBusy s) && Splide_is E LOOP); [|reflexivity].
  fold diff. rewrite exceededLimit_min, exceededLimit_max.
  assert (H1 : Num.ltb (orient E p) (orient E (getLimit E false))
               && Num.ltb diff 0 = false).
  { apply andb_false_iff. destruct Hmin as [H|H];
      [left|right]; now apply NumFacts.ltb_ge. }
  assert (H2 : Num.gtb (orient E p) (orient E (getLimit E true))
               && Num.gtb diff 0 = false).
  { apply andb_false_iff. destruct Hmax as [H|H];
      [left|right]; now apply NumFacts.gtb_le. }
  rewrite H1, H2. reflexivity.
Qed.

(** On the loop page at offset 0, the offset -900 lies past the maximum
    limit; requested from -1000 it points away from it and is kept. *)
Lemma loop_unchanged_witness :
  exceededLimit (loopScenario 5) (Some true) (Some (-900)) (dom initial)
  = true
  /\ loop (loopScenario 5) (-900)
       {| waiting := None; state := IDLE;
          dom := {| rectList := -1000; rectTrack := 0 |}; log := [] |}
     = -900.
Proof.
  split; [reflexivity|].
  apply (loop_unchanged (loopScenario 5)).
  - left. discriminate.
  - right. discriminate.
Defined.

(** ** Trimming and the limits *)

Lemma trim_monotone (E : Setup) (a b : Q) :
  orient E a <= orient E b -> orient E (trim E a) <= orient E (trim E b).
Proof.
  intro H. unfold trim.
  destruct (truthy (trimSpace (options E)) && Splide_is E SLIDE);
    [|exact H].
  set (e := orient E (sliderSize (layout E) - listSize (layout E))).
  destruct (orient_le_cases E a b H) as [[Hab Ho]|[Hba Ho]]; rewrite !Ho.
  - now apply NumMore.clamp_monotone.
  - apply Qopp_le_compat. now apply NumMore.clamp_monotone.
Qed.

(** X6.  Trimming twice is trimming once. *)
Theorem trim_idempotent (E : Setup) (p : Q) :
  trim E (trim E p) == trim E p.
Proof.
  unfold trim.
  destruct (truthy (trimSpace (options E)) && Splide_is E SLIDE);
    [apply NumMore.clamp_idempotent|reflexivity].
Qed.

(** X7.  Trimming never reverses the order of two slides: if the untrimmed
    offset of [a] does not lie after that of [b] in the oriented order,
    neither does its trimmed offset. *)
Theorem toPosition_trim_keeps_order (E : Setup) (a b : Z) :
  orient E (toPosition E a false) <= orient E (toPosition E b false) ->
  orient E (toPosition E a true) <= orient E (toPosition E b true).
Proof. apply trim_monotone. Qed.

(** On the centred page slide 0 lies before slide 1 untrimmed, and not
    after it once trimmed (both are then at 0). *)
Lemma toPosition_trim_keeps_order_witness :
  orient centeredScenario (toPosition centeredScenario 0 false)
  < orient centeredScenario (toPosition centeredScenario 1 false)
  /\ orient centeredScenario (toPosition centeredScenario 0 true)
     <= orient centeredScenario (toPosition centeredScenario 1 true).
Proof.
  split; [reflexivity|].
  apply (toPosition_trim_keeps_order centeredScenario 0 1). discriminate.
Defined.

(** X8.  The limits are trimmed offsets whatever [trimSpace] is: where
    [getLimit] asks for the untrimmed offset, trimming would do nothing. *)
Theorem getLimit_trimmed (E : Setup) (max : bool) :
  getLimit E max = toPosition E (if max then getEnd E else 0%Z) true.
Proof.
  unfold getLimit.
  destruct (truthy (trimSpace (options E))) eqn:Htrim; [reflexivity|].
  unfold toPosition, trim. now rewrite Htrim.
Qed.

(** X9.  With [max] omitted, an offset exceeds no limit exactly when it
    lies between the two limits in the oriented order, both included; an
    omitted offset is the current one. *)
Theorem exceededLimit_within (E : Setup) (d : Dom) :
  (forall p : Q,
     exceededLimit E None (Some p) d = false
     <-> orient E (getLimit E false) <= orient E p
         /\ orient E p <= orient E (getLimit E true))
  /\ (forall max : option bool,
        exceededLimit E max None d
        = exceededLimit E max (Some (getPosition E d)) d).
Proof.
  split; [|reflexivity].
  intro p. rewrite exceededLimit_both, orb_false_iff.
  rewrite exceededLimit_min, exceededLimit_max.
  now rewrite NumFacts.ltb_ge, NumFacts.gtb_le.
Qed.

(** On the test page -400 lies between the limits 0 and -800. *)
Lemma exceededLimit_within_witness :
  exceededLimit slideScenario None (Some (-400)) (dom initial) = false.
Proof.
  apply (proj1 (exceededLimit_within slideScenario (dom initial)) (-400)).
  split; discriminate.
Defined.

(** X10.  An index whose untrimmed offset lies between those of index 0 and
    of [getEnd()] in the oriented order has a trimmed offset that exceeds
    neither limit; [jump] to it hands the style that offset itself, in every
    mode and whatever the current offset is. *)
Theorem jump_within_limits (E : Setup) (s : State) (i : Z) :
  orient E (toPosition E 0 false) <= orient E (toPosition E i false) ->
  orient E (toPosition E i false)
  <= orient E (toPosition E (getEnd E) false) ->
  exceededLimit E None (Some (toPosition E i true)) (dom s) = false
  /\ log (jump E i s) = log s ++ [Style_ruleBy (toPosition E i true)].
Proof.
  intros Hlo Hhi.
  assert (Hin : exceededLimit E None (Some (toPosition E i true)) (dom s)
                = false).
  { apply (proj1 (exceededLimit_within E (dom s))).
    rewrite !getLimit_trimmed. split; now apply trim_monotone. }
  split; [exact Hin|].
  unfold jump, translate. now rewrite (loop_within_limits E s _ Hin).
Qed.

(** On the loop page at offset -1000, index 2 is rendered at -400. *)
Lemma jump_within_limits_witness :
  log (jump (loopScenario 5) 2
         {| waiting := None; state := IDLE;
            dom := {| rectList := -1000; rectTrack := 0 |}; log := [] |})
  = [] ++ [Style_ruleBy (toPosition (loopScenario 5) 2 true)].
Proof.
  apply (jump_within_limits (loopScenario 5)); discriminate.
Defined.

(** X11.  With [focus: 'center'] the untrimmed offset puts the middle of
    the slide on the middle of the list: the oriented offset plus half the
    list size is the total size before the slide plus half the slide's own
    size. *)
Theorem toPosition_centres (E : Setup) (index : Z) :
  focus (options E) = FocusCenter ->
  orient E (toPosition E index false) + listSize (layout E) / 2
  == totalSize (layout E) (index - 1)
     + slideSize (layout E) index true / 2.
Proof.
  intro Hfocus. unfold toPosition, offset. rewrite Hfocus.
  rewrite orient_involutive. field.
Qed.

(** On the centred page slide 2 starts at 400 and is 200 wide: its middle,
    500, is shown at the middle of the 600px list. *)
Lemma toPosition_centres_witness :
  orient centeredScenario (toPosition centeredScenario 2 false) + 600 / 2
  == 400 + 200 / 2.
Proof.
  apply (toPosition_centres centeredScenario 2). reflexivity.
Defined.

(** ** What the scan of [toIndex] returns *)

Section ScanShape.

Variable E : Setup.
Variable p : Q.

Local Abbreviation dist a := (Num.abs (toPosition E a true - p)).

Lemma scan_index_or_member (l : list Z) :
  forall (index : Z) (minDistance : option Q),
    scan E l p index minDistance = index
    \/ In (scan E l p index minDistance) l.
Proof.
  induction l as [|a l IH]; intros index minDistance; [now left|].
  cbn [scan]. destruct (Num.lt_min (dist a) minDistance); [|now left].
  right. destruct (IH a (Some (dist a))) as [->|H]; [now left|now right].
Qed.

(** The scan entered at slide [a] stops at the first slide whose successor
    is not strictly closer; every slide passed on the way is strictly
    farther. *)
Lemma scan_first_minimum (l : list Z) :
  forall a : Z,
    exists pre post : list Z,
      a :: l = pre ++ scan E l p a (Some (dist a)) :: post
      /\ (forall j : Z,
            In j pre -> dist (scan E l p a (Some (dist a))) < dist j)
      /\ (forall b : Z,
            hd_error post = Some b ->
            dist (scan E l p a (Some (dist a))) <= dist b).
Proof.
  induction l as [|b l IH]; intro a.
  - exists [], []. cbn [scan]. repeat split.
    + intros j [].
    + intros b Hb. discriminate Hb.
  - cbn [scan Num.lt_min].
    destruct (Num.ltb (dist b) (dist a)) eqn:Hcmp.
    + apply NumFacts.ltb_lt in Hcmp.
      destruct (IH b) as (pre & post & Hsplit & Hpre & Hpost).
      set (r := scan E l p b (Some (dist b))) in *.
      exists (a :: pre), post. repeat split.
      * simpl. now rewrite Hsplit.
      * intros j [<-|Hj]; [|now apply Hpre].
        destruct pre as [|c pre].
        -- simpl in Hsplit. injection Hsplit as Hr _. now rewrite <- Hr.
        -- simpl in Hsplit. injection Hsplit as Hc _.
           eapply Qlt_trans; [apply Hpre; now left|].
           now rewrite <- Hc.
      * exact Hpost.
    + apply NumFacts.ltb_ge in Hcmp.
      exists [], (b :: l). repeat split.
      * intros j [].
      * intros b' Hb'. injection Hb' as <-. exact Hcmp.
Qed.

End ScanShape.

(** X12.  [toIndex] answers 0 for an empty registry and an index of the
    registry otherwise, whatever the offset and the geometry. *)
Theorem toIndex_in_registry (E : Setup) (p : Q) :
  (slides E = [] -> toIndex E p = 0%Z)
  /\ (slides E <> [] -> In (toIndex E p) (slides E)).
Proof.
  unfold toIndex. split.
  - intros ->. reflexivity.
  - destruct (slides E) as [|a l]; [congruence|]. intros _.
    cbn [scan Num.lt_min].
    destruct (scan_index_or_member E p l a
                (Some (Num.abs (toPosition E a true - p)))) as [->|H];
      [now left|now right].
Qed.

(** On the centred page the answer for -1000 is a slide of the page. *)
Lemma toIndex_in_registry_witness :
  In (toIndex centeredScenario (-1000)) (slides centeredScenario).
Proof.
  apply (proj2 (toIndex_in_registry centeredScenario (-1000))).
  discriminate.
Defined.



(** X14.  Where the trimmed offsets of a non-empty registry advance
    strictly from each slide to the next, [toIndex] returns a slide of the
    registry that no other slide is closer to the offset than; of two
    slides at the same distance it returns the earlier one. *)
Theorem toIndex_returns_closest (E : Setup) (p : Q) :
  slides E <> [] -> advancing E (slides E) = true ->
  In (toIndex E p) (slides E)
  /\ (forall j : Z,
        In j (slides E) ->
        Num.abs (toPosition E (toIndex E p) true - p)
        <= Num.abs (toPosition E j true - p))
  /\ exists pre post : list Z,
       slides E = pre ++ toIndex E p :: post
       /\ forall j : Z,
            In j pre ->
            Num.abs (toPosition E (toIndex E p) true - p)
            < Num.abs (toPosition E j true - p).
Proof.
  intros Hne Hadv.
  destruct (toIndex_closest_when_advancing E p Hne Hadv) as [Hin Hmin].
  repeat split; [exact Hin|exact Hmin|].
  unfold toIndex in *. destruct (slides E) as [|a l]; [congruence|].
  cbn [scan Num.lt_min].
  destruct (scan_first_minimum E p l a) as (pre & post & Hsplit & Hpre & _).
  exists pre, post. split; [exact Hsplit|exact Hpre].
Qed.

(** On the test page with one slide per page the offsets advance, so the
    answer for -330 is a closest slide. *)
Lemma toIndex_returns_closest_witness :
  advancing slideScenario (slides slideScenario) = true
  /\ forall j : Z,
       In j (slides slideScenario) ->
       Num.abs (toPosition slideScenario (toIndex slideScenario (-330)) true
                - -330)
       <= Num.abs (toPosition slideScenario j true - -330).
Proof.
  split; [reflexivity|].
  apply (toIndex_returns_closest slideScenario (-330));
    [discriminate|reflexivity].
Defined.

(** ** Runs of the machine *)

Lemma positioning_frame (E : Setup) (op : Op) (s : State) :
  positioning op = true ->
  waiting (step E op s) = waiting s /\ state (step E op s) = state s.
Proof.
  destruct op; try discriminate; intros _; simpl; try (split; reflexivity).
  unfold mount. destruct (negb (Splide_is E FADE)); split; reflexivity.
Qed.

(** X15.  Jumping, translating, repositioning and mounting never touch
    [waiting] or the motion state, and the only calls they make are to the
    style, to [Scroll.cancel] and the REPOSITIONED notification: they do not
    start, cancel or complete a move, also while one is under way. *)
Theorem positioning_is_passive (E : Setup) (op : Op) (s : State) :
  positioning op = true ->
  waiting (step E op s) = waiting s
  /\ state (step E op s) = state s
  /\ exists added : list Effect,
       log (step E op s) = log s ++ added
       /\ forallb positional added = true.
Proof.
  intro Hop. destruct (positioning_frame E op s Hop) as [Hw Hs].
  repeat split; [exact Hw|exact Hs|].
  destruct op; try discriminate; simpl.
  - eexists [_]. split; reflexivity.
  - eexists [_]. split; reflexivity.
  - eexists [_; _; _]. split.
    + unfold reposition, jump, translate, call. simpl.
      now rewrite <- !app_assoc.
    + reflexivity.
  - unfold mount. destruct (negb (Splide_is E FADE)).
    + exists []. split; [now rewrite app_nil_r|reflexivity].
    + eexists [_]. split; reflexivity.
Qed.

(** Repositioning while the first move of the test page waits. *)
Lemma positioning_is_passive_witness :
  waiting (step slideScenario (OpReposition 3) movingWaiting) = Some true
  /\ state (step slideScenario (OpReposition 3) movingWaiting) = MOVING.
Proof.
  destruct (positioning_is_passive slideScenario (OpReposition 3)
              movingWaiting eq_refl) as (Hw & Hs & _).
  split; [exact Hw|exact Hs].
Defined.

Lemma step_busy_moving (E : Setup) (op : Op) (s : State) :
  (isBusy s = true -> state s = MOVING) ->
  isBusy (step E op s) = true -> state (step E op s) = MOVING.
Proof.
  intros Hinv Hbusy.
  destruct (positioning op) eqn:Hop.
  - destruct (positioning_frame E op s Hop) as [Hw Hs].
    rewrite Hs. apply Hinv. unfold isBusy in *. now rewrite <- Hw.
  - destruct op; try discriminate; cbn [step] in *.
    + unfold move in *. destruct (isBusy s) eqn:Hb;
        [now apply Hinv|reflexivity].
    + rewrite isBusy_transitionDone in Hbusy. discriminate Hbusy.
Qed.

Lemma run_busy_moving (E : Setup) (ops : list Op) :
  forall s : State,
    (isBusy s = true -> state s = MOVING) ->
    isBusy (run E ops s) = true -> state (run E ops s) = MOVING.
Proof.
  induction ops as [|op ops IH]; intros s Hinv; [exact Hinv|].
  simpl. apply IH. now apply step_busy_moving.
Qed.

(** X16.  After any sequence of operations from the initial state, whenever
    [isBusy()] is true the motion state is MOVING. *)
Theorem busy_implies_moving (E : Setup) (ops : list Op) :
  isBusy (run E ops initial) = true -> state (run E ops initial) = MOVING.
Proof. apply run_busy_moving. discriminate. Qed.

(** A move, a reposition and a dropped second move on the test page. *)
Lemma busy_implies_moving_witness :
  isBusy (run slideScenario
            [OpMove 1 1 0 None; OpReposition 1; OpMove 2 2 1 None] initial)
  = true
  /\ state (run slideScenario
              [OpMove 1 1 0 None; OpReposition 1; OpMove 2 2 1 None] initial)
     = MOVING.
Proof.
  split; [reflexivity|].
  apply (busy_implies_moving slideScenario). reflexivity.
Defined.

(** X17.  The converse does not hold by design of [cancel()]: it clears
    [waiting] and leaves the motion state as it is, so after a waiting move
    is cancelled the state is still MOVING while [isBusy()] is false; the
    next [move] is accepted all the same. *)
Theorem cancel_keeps_moving (E : Setup) (dest index prev : Z)
    (callback : option Callback) (s : State) :
  state s = MOVING ->
  state (cancel E s) = MOVING
  /\ isBusy (cancel E s) = false
  /\ log (move E dest index prev callback (cancel E s))
     = log (cancel E s)
       ++ [Emit_MOVE index prev dest;
           Transition_start dest
             (handlerOf E dest index prev callback (cancel E s))].
Proof.
  intro Hs. repeat split; [exact Hs|].
  unfold move. simpl. now rewrite <- !app_assoc.
Qed.

Lemma cancel_keeps_moving_witness :
  state (cancel slideScenario movingWaiting) = MOVING
  /\ isBusy (cancel slideScenario movingWaiting) = false.
Proof.
  destruct (cancel_keeps_moving slideScenario 2 2 1 None movingWaiting
              eq_refl) as (H1 & H2 & _).
  split; [exact H1|exact H2].
Defined.

(** X18.  When the destination differs from the index or
    [waitForTransition] is set, a [move] made right after a [move] is
    dropped, whether the first one was accepted or not. *)
Theorem move_twice (E : Setup) (dest index prev dest' index' prev' : Z)
    (callback callback' : option Callback) (s : State) :
  negb (dest =? index)%Z || waitForTransition (options E) = true ->
  move E dest' index' prev' callback' (move E dest index prev callback s)
  = move E dest index prev callback s.
Proof.
  intro Hwait. destruct (isBusy s) eqn:Hb.
  - unfold move. rewrite Hb. simpl. now rewrite Hb.
  - unfold move at 1.
    assert (Hbusy : isBusy (move E dest index prev callback s) = true).
    { unfold move. rewrite Hb. simpl. unfold isBusy. simpl.
      now rewrite Hwait. }
    now rewrite Hbusy.
Qed.

Lemma move_twice_witness :
  move slideScenario 2 2 1 (Some 3%nat) (move slideScenario 1 1 0 None initial)
  = move slideScenario 1 1 0 None initial.
Proof.
  apply (move_twice slideScenario). reflexivity.
Defined.

(** ** A whole move *)

Lemma state_transitionDone (E : Setup) (h : Handler) (s : State) :
  state (transitionDone E h s) = IDLE.
Proof.
  unfold transitionDone.
  destruct (compensates E h (settle E h s)); [reflexivity|].
  destruct (h_callback h); reflexivity.
Qed.

Lemma log_transitionDone (E : Setup) (h : Handler) (s : State) :
  exists tail : list Effect,
    log (transitionDone E h s) = log (settle E h s) ++ tail
    /\ (tail = []
        \/ (exists c : Control, tail = [Controller_go c false (h_callback h)])
        \/ (exists c : Callback,
              h_callback h = Some c /\ tail = [Invoke c])).
Proof.
  unfold transitionDone.
  destruct (compensates E h (settle E h s)).
  - eexists. split; [reflexivity|]. right. left. eexists. reflexivity.
  - destruct (h_callback h) as [c|].
    + eexists. split; [reflexivity|]. right. right. now exists c.
    + exists []. split; [now rewrite app_nil_r|now left].
Qed.

(** X19.  An accepted [move] followed by its completion handler ends IDLE
    with [waiting] clear.  In between, the calls are, in this order: the
    MOVE notification, the start of the transition, for a looping move
    (destination other than the index) the relocation to the trimmed offset
    of the index, handed to the style as it is since [waiting] is still set
    at that point, and the MOVED notification with the same three indices;
    then at most one more call, a request to the controller or the
    callback. *)
Theorem move_cycle (E : Setup) (dest index prev : Z)
    (callback : option Callback) (s : State) :
  isBusy s = false ->
  let h := handlerOf E dest index prev callback s in
  let s2 := transitionDone E h (move E dest index prev callback s) in
  isBusy s2 = false
  /\ state s2 = IDLE
  /\ exists tail : list Effect,
       log s2
       = log s
         ++ [Emit_MOVE index prev dest; Transition_start dest h]
         ++ (if negb (dest =? index)%Z
             then [Style_ruleBy (toPosition E index true)] else [])
         ++ [Emit_MOVED index prev dest]
         ++ tail
       /\ (tail = []
           \/ (exists c : Control, tail = [Controller_go c false callback])
           \/ (exists c : Callback,
                 callback = Some c /\ tail = [Invoke c])).
Proof.
  intros Hfree h s2. subst s2.
  split; [apply isBusy_transitionDone|].
  split; [apply state_transitionDone|].
  set (s1 := move E dest index prev callback s).
  destruct (log_transitionDone E h s1) as (tail & Hlog & Htail).
  exists tail. split; [|exact Htail].
  rewrite Hlog.
  destruct (settle_effects E h s1) as (_ & _ & Hsettle).
  rewrite Hsettle.
  assert (Hs1 : log s1
                = log s ++ [Emit_MOVE index prev dest;
                            Transition_start dest h]).
  { unfold s1, move. rewrite Hfree. simpl. now rewrite <- app_assoc. }
  rewrite Hs1. change (h_dest h) with dest. change (h_index h) with index.
  change (h_prev h) with prev.
  destruct (negb (dest =? index)%Z) eqn:Hlooping.
  - assert (Hbusy : isBusy s1 = true).
    { unfold s1, move. rewrite Hfree. simpl. unfold isBusy. simpl.
      now rewrite Hlooping. }
    assert (Hjump : loop E (toPosition E index true) s1
                    = toPosition E index true).
    { unfold loop. now rewrite Hbusy. }
    rewrite Hjump. now rewrite <- !app_assoc.
  - now rewrite <- !app_assoc.
Qed.

(** A looping move on the loop page: from the last slide to the clone
    after it, standing for slide 0. *)
Lemma move_cycle_witness :
  state (transitionDone (loopScenario 5)
           (handlerOf (loopScenario 5) 5 0 4 None initial)
           (move (loopScenario 5) 5 0 4 None initial)) = IDLE.
Proof.
  apply (move_cycle (loopScenario 5) 5 0 4 None initial). reflexivity.
Defined.
